(** * ion-modal: the overlay lifecycle of [core/src/components/modal/modal.tsx]

    A shallow embedding of the [Modal] component class.  The component is a
    mutable object driven by [async] methods; it is modelled by explicit
    state passing over a [World] (the component instance, the part of the
    DOM it queries, and a chronological trace of the effects it performs on
    its collaborators), and every [async] method is a resumption: it runs
    synchronously up to its next [await], where it hands back the world
    together with its continuation. *)

From Stdlib Require Import ZArith.
From stdpp Require Import gmap strings list.

(** ** Values and verbatim types of the source *)

(** DOM elements are known by identity only. *)
Definition ElemId := nat.

(** The values a props bag or a dismiss payload ([any]) may carry. *)
#[warnings="-register-all"]
Inductive Value :=
| VUndefined
| VNull
| VBool (b : bool)
| VNum (n : Z)
| VStr (s : string)
| VElem (e : ElemId)
| VObj (fields : list (string * Value)).

(** [Mode]: "ios" or "md". *)
Inductive Mode := ios | md.

(** [cssClass?: string | string[]]. *)
Inductive CssClass :=
| ClassString (s : string)
| ClassList (l : list string).

(** The four animation builders imported by modal.tsx from ./animations/,
    and any builder a caller supplies through a prop. *)
Inductive AnimationBuilder :=
| iosEnterAnimation
| iosLeaveAnimation
| mdEnterAnimation
| mdLeaveAnimation
| userAnimation (id : nat).

(** [OverlayEventDetail], the payload [{data, role}] of the dismiss events. *)
Record OverlayEventDetail := { data : Value; role : option string }.

(** The [detail] of an event: [undefined] for the [void] emitters. *)
Definition Detail := option OverlayEventDetail.

Record CustomEvent := {
  type : string;
  bubbles : bool;
  cancelable : bool;
  detail : Detail
}.

(** The part of a DOM [UIEvent] that [onDismiss] acts on. *)
Record UIEvent := {
  ui_type : string;
  ui_cancelable : bool;
  cancelBubble : bool;
  defaultPrevented : bool
}.

Definition stopPropagation (ev : UIEvent) : UIEvent :=
  {| ui_type := ui_type ev; ui_cancelable := ui_cancelable ev;
     cancelBubble := true; defaultPrevented := defaultPrevented ev |}.

Definition preventDefault (ev : UIEvent) : UIEvent :=
  {| ui_type := ui_type ev; ui_cancelable := ui_cancelable ev;
     cancelBubble := cancelBubble ev;
     defaultPrevented := ui_cancelable ev || defaultPrevented ev |}.

(** What a rejected promise carries: a plain [Error] with its message
    (modal.tsx line 165), or the mounter's failure. *)
Inductive Exn :=
| JsError (message : string)
| AttachError.

(** The error the spec calls MountError. *)
Definition MountError : Exn := JsError "container is undefined".

(** Event names declared by the [@Event] decorators (lines 100-115). *)
Definition ionModalDidPresent : string := "ionModalDidPresent".
Definition ionModalWillPresent : string := "ionModalWillPresent".
Definition ionModalWillDismiss : string := "ionModalWillDismiss".
Definition ionModalDidDismiss : string := "ionModalDidDismiss".

(** [LIFECYCLE_MAP] (lines 229-234): an object literal read by key; a key
    it does not hold reads as [undefined].  Only its own four keys are
    modelled, not the members every object inherits ('toString',
    'constructor', ...): the listener that reads the table is registered
    for the four event names alone (lines 138-141). *)
Definition LIFECYCLE_MAP : list (string * string) :=
  [ ("ionModalDidPresent", "ionViewDidEnter");
    ("ionModalWillPresent", "ionViewWillEnter");
    ("ionModalWillDismiss", "ionViewWillDismiss");
    ("ionModalDidDismiss", "ionViewDidDismiss") ].

Fixpoint get_key (tbl : list (string * string)) (k : string) : option string :=
  match tbl with
  | [] => None
  | (k', v) :: rest => if String.eqb k' k then Some v else get_key rest k
  end.

(** JavaScript truthiness of a looked-up name: defined and not empty. *)
Definition truthy_name (o : option string) : option string :=
  match o with
  | Some s => if String.eqb s "" then None else Some s
  | None => None
  end.

(** Modelled from the spec: the constant [BACKDROP] of utils/overlays, which
    is not part of the sources at hand; section 4.1 gives the reserved role
    value as "backdrop". *)
Definition BACKDROP : string := "backdrop".

(** The four lifecycle events in the vocabulary of the spec, with the names
    the source gives them on the host and on the content. *)
Inductive LifecycleEvent := WillPresent | DidPresent | WillDismiss | DidDismiss.

Definition host_name (k : LifecycleEvent) : string :=
  match k with
  | WillPresent => ionModalWillPresent
  | DidPresent => ionModalDidPresent
  | WillDismiss => ionModalWillDismiss
  | DidDismiss => ionModalDidDismiss
  end.

(** The name mapping as section 4.6 of the spec lists it. *)
Definition view_name (k : LifecycleEvent) : string :=
  match k with
  | WillPresent => "ionViewWillEnter"
  | DidPresent => "ionViewDidEnter"
  | WillDismiss => "ionViewWillDismiss"
  | DidDismiss => "ionViewDidDismiss"
  end.

(** ** Numbers

    A JavaScript [number] is a binary64 float.  [overlayIndex] holds whole
    numbers, which are kept as integers here; what has to be modelled is
    that a sum of whole numbers is rounded to the nearest number binary64
    can hold, ties going to the even significand.  Whole numbers are exact
    up to [MAX_SAFE_INTEGER] in magnitude; above it, the low bits are
    rounded off.  (Sums beyond the largest finite binary64 number are out
    of the model.) *)

(** [Number.MAX_SAFE_INTEGER], 2^53 - 1. *)
Definition MAX_SAFE_INTEGER : Z := 9007199254740991.

(** The binary64 number nearest to a whole number. *)
Definition round_binary64 (z : Z) : Z :=
  let e := (Z.log2 (Z.abs z) - 52)%Z in
  if (e <=? 0)%Z then z
  else
    let ulp := (2 ^ e)%Z in
    let q := (z / ulp)%Z in
    let r := (z mod ulp)%Z in
    if (2 * r <? ulp)%Z then (q * ulp)%Z
    else if (ulp <? 2 * r)%Z then ((q + 1) * ulp)%Z
    else if Z.even q then (q * ulp)%Z else ((q + 1) * ulp)%Z.

(** [a + b] on whole numbers. *)
Definition number_add (a b : Z) : Z := round_binary64 (a + b).

Section Overlay.

(** The content descriptor and the framework delegate are opaque to the
    component: it only passes them on to the mounter. *)
Context {ComponentRef Delegate : Type}.

(** Whether the mounter can resolve a descriptor to renderable content. *)
Variable renderable : ComponentRef -> bool.

(** ** The component instance *)

Record Modal := {
  usersElement : option ElemId;
  presented : bool;
  el : ElemId;
  overlayIndex : Z;
  delegate : option Delegate;
  mode : Mode;
  keyboardClose : bool;
  enterAnimation : option AnimationBuilder;
  leaveAnimation : option AnimationBuilder;
  component : ComponentRef;
  componentProps : option (gmap string Value);
  cssClass : option CssClass;
  backdropDismiss : bool;
  showBackdrop : bool;
  animated : bool
}.

Definition set_usersElement (h : option ElemId) (m : Modal) : Modal :=
  {| usersElement := h; presented := presented m; el := el m;
     overlayIndex := overlayIndex m; delegate := delegate m; mode := mode m;
     keyboardClose := keyboardClose m; enterAnimation := enterAnimation m;
     leaveAnimation := leaveAnimation m; component := component m;
     componentProps := componentProps m; cssClass := cssClass m;
     backdropDismiss := backdropDismiss m; showBackdrop := showBackdrop m;
     animated := animated m |}.

Definition set_presented (b : bool) (m : Modal) : Modal :=
  {| usersElement := usersElement m; presented := b; el := el m;
     overlayIndex := overlayIndex m; delegate := delegate m; mode := mode m;
     keyboardClose := keyboardClose m; enterAnimation := enterAnimation m;
     leaveAnimation := leaveAnimation m; component := component m;
     componentProps := componentProps m; cssClass := cssClass m;
     backdropDismiss := backdropDismiss m; showBackdrop := showBackdrop m;
     animated := animated m |}.

(** ** Effects and the world *)

Inductive Effect :=
| EAttach (d : option Delegate) (container : ElemId) (c : ComponentRef)
          (cssClasses : list string) (props : gmap string Value) (h : ElemId)
| EDetach (d : option Delegate) (h : option ElemId)
| EReady (h : option ElemId)
| EAnimate (name : string) (b : AnimationBuilder)
| EEmit (ev : CustomEvent)
| EDispatch (target : ElemId) (ev : CustomEvent).

Record World := {
  modal : Modal;
  (** what [this.el.querySelector('.modal-wrapper')] finds *)
  container : option ElemId;
  (** the content handles currently attached *)
  mounted : list ElemId;
  (** the identity the next created element receives *)
  next_handle : ElemId;
  trace : list Effect
}.

Definition with_modal (f : Modal -> Modal) (w : World) : World :=
  {| modal := f (modal w); container := container w; mounted := mounted w;
     next_handle := next_handle w; trace := trace w |}.

Definition log (e : Effect) (w : World) : World :=
  {| modal := modal w; container := container w; mounted := mounted w;
     next_handle := next_handle w; trace := trace w ++ [e] |}.

Definition mount (h : ElemId) (w : World) : World :=
  {| modal := modal w; container := container w; mounted := mounted w ++ [h];
     next_handle := S (next_handle w); trace := trace w |}.

Definition remove_handle (h : option ElemId) (l : list ElemId) : list ElemId :=
  match h with
  | Some x => List.filter (fun y => negb (Nat.eqb x y)) l
  | None => l
  end.

Definition unmount (h : option ElemId) (w : World) : World :=
  {| modal := modal w; container := container w;
     mounted := remove_handle h (mounted w);
     next_handle := next_handle w; trace := trace w |}.

(** ** Asynchronous methods as resumptions *)

Inductive Step (A : Type) :=
| Done (w : World) (a : A)
| Threw (w : World) (e : Exn)
| Await (w : World) (k : World -> Step A).

Arguments Done {A} w a.
Arguments Threw {A} w e.
Arguments Await {A} w k.

(** [await p; k]: the caller is suspended until [p] settles, at the earliest
    one turn later, and a rejection of [p] rejects the caller. *)
Fixpoint await_ {A B : Type} (p : Step A) (k : A -> World -> Step B) : Step B :=
  match p with
  | Done w a => Await w (k a)
  | Threw w e => Await w (fun w' => Threw w' e)
  | Await w k' => Await w (fun w' => await_ (k' w') k)
  end.

(** A call that is awaited to its end with nothing else running in between. *)
Fixpoint exec {A : Type} (p : Step A) : World * (Exn + A) :=
  match p with
  | Done w a => (w, inr a)
  | Threw w e => (w, inl e)
  | Await w k => exec (k w)
  end.

(** The world a call has reached when it returns control. *)
Definition world_of {A : Type} (p : Step A) : World :=
  match p with
  | Done w _ => w
  | Threw w _ => w
  | Await w _ => w
  end.

Definition suspended {A : Type} (p : Step A) : bool :=
  match p with
  | Await _ _ => true
  | _ => false
  end.

(** Resuming a suspended call in the world as it is by then. *)
Definition resume {A : Type} (p : Step A) (w : World) : Step A :=
  match p with
  | Await _ k => k w
  | _ => p
  end.

(** ** The event bridge (lines 138-153) *)

Definition lifecycle (modalEvent : CustomEvent) (w : World) : World :=
  let el := usersElement (modal w) in
  let name := get_key LIFECYCLE_MAP (type modalEvent) in
  match el, truthy_name name with
  | Some el, Some name =>
      let ev := {| type := name; bubbles := false; cancelable := false;
                   detail := detail modalEvent |} in
      log (EDispatch el ev) w
  | _, _ => w
  end.

(** The [@Listen] decorators of lines 138-141: the events handed to
    [lifecycle]. *)
Definition listens_lifecycle (name : string) : bool :=
  String.eqb name "ionModalDidPresent" || String.eqb name "ionModalWillPresent"
  || String.eqb name "ionModalWillDismiss" || String.eqb name "ionModalDidDismiss".

(** [EventEmitter.emit]: the event is dispatched on the host element, where
    the component's own listeners receive it at once. *)
Definition emit (name : string) (d : Detail) (w : World) : World :=
  let ev := {| type := name; bubbles := true; cancelable := true; detail := d |} in
  let w1 := log (EEmit ev) w in
  if listens_lifecycle name then lifecycle ev w1 else w1.

(** ** Collaborators outside the component *)

(** Modelled from the spec: [attachComponent] of utils/framework-delegate is
    not part of the sources at hand.  Section 4.3: attach produces a mounted
    content handle inside the container and fails with AttachError if the
    descriptor cannot be resolved to renderable content. *)
Definition attachComponent (d : option Delegate) (cont : ElemId)
    (c : ComponentRef) (cssClasses : list string) (props : gmap string Value)
    (w : World) : Step ElemId :=
  if renderable c then
    let h := next_handle w in
    Done (log (EAttach d cont c cssClasses props h) (mount h w)) h
  else Threw w AttachError.

(** Modelled from the spec: [detachComponent] of utils/framework-delegate is
    not part of the sources at hand.  Section 4.3: detach is idempotent and a
    no-op on a handle already released. *)
Definition detachComponent (d : option Delegate) (h : option ElemId)
    (w : World) : Step unit :=
  Done (log (EDetach d h) (unmount h w)) tt.

(** Modelled from the spec: [deepReady] of utils/transition is not part of
    the sources at hand.  Section 4.4: suspends until the content reports
    ready and never fails. *)
Definition deepReady (h : option ElemId) (w : World) : Step unit :=
  Await (log (EReady h) w) (fun w' => Done w' tt).

(** Modelled from the spec: the selection table of section 4.2, used by the
    helpers of utils/overlays. *)
Definition select (m : Mode) (iosAnimation mdAnimation : AnimationBuilder)
  : AnimationBuilder :=
  match m with
  | ios => iosAnimation
  | md => mdAnimation
  end.

(** Modelled from the spec: running the transition.  Section 4.2: a caller's
    override takes precedence over the table, and with [animated] false the
    animation is skipped and counts as complete at once. *)
Definition overlayAnimation {A : Type} (name : string)
    (override : option AnimationBuilder) (table : AnimationBuilder)
    (w : World) (k : World -> Step A) : Step A :=
  let builder := match override with Some b => b | None => table end in
  if animated (modal w) then Await (log (EAnimate name builder) w) k else k w.

(** Modelled from the spec: [present] of utils/overlays is not part of the
    sources at hand.  Section 4.1: emits WillPresent, runs the theme-selected
    enter animation, and on its completion sets [presented] and emits
    DidPresent. *)
Definition overlays_present (name : string)
    (iosEnter mdEnter : AnimationBuilder) (w : World) : Step unit :=
  let w1 := emit ionModalWillPresent None w in
  overlayAnimation name (enterAnimation (modal w1))
    (select (mode (modal w1)) iosEnter mdEnter) w1
    (fun w2 =>
       let w3 := with_modal (set_presented true) w2 in
       Done (emit ionModalDidPresent None w3) tt).

(** Modelled from the spec: [dismiss] of utils/overlays is not part of the
    sources at hand.  Section 4.1: returns false unless presented; emits
    WillDismiss with the payload, runs the theme-selected leave animation,
    on its completion emits DidDismiss with the payload and clears
    [presented]; returns true.  The state the guard consults is the
    [presented] flag (sections 3 and 9). *)
Definition overlays_dismiss (d : Value) (r : option string) (name : string)
    (iosLeave mdLeave : AnimationBuilder) (w : World) : Step bool :=
  if negb (presented (modal w)) then Done w false
  else
    let payload := Some {| data := d; role := r |} in
    let w1 := emit ionModalWillDismiss payload w in
    overlayAnimation name (leaveAnimation (modal w1))
      (select (mode (modal w1)) iosLeave mdLeave) w1
      (fun w2 =>
         let w3 := emit ionModalDidDismiss payload w2 in
         Done (with_modal (set_presented false) w3) true).

(** ** The methods of the component *)

(** [present] (lines 158-174). *)
Definition present (w : World) : Step unit :=
  let this := modal w in
  if presented this then Done w tt
  else
    match container w with
    | None => Threw w (JsError "container is undefined")
    | Some cont =>
        let componentProps :=
          <["modal" := VElem (el this)]> (default ∅ (componentProps this)) in
        await_ (attachComponent (delegate this) cont (component this)
                  ["ion-page"] componentProps w)
          (fun h w1 =>
             let w2 := with_modal (set_usersElement (Some h)) w1 in
             await_ (deepReady (usersElement (modal w2)) w2)
               (fun _ w3 =>
                  overlays_present "modalEnter" iosEnterAnimation
                    mdEnterAnimation w3))
    end.

(** [dismiss] (lines 179-186); an omitted [data] is [undefined]. *)
Definition dismiss (d : Value) (r : option string) (w : World) : Step bool :=
  await_ (overlays_dismiss d r "modalLeave" iosLeaveAnimation
            mdLeaveAnimation w)
    (fun dismissed w1 =>
       if dismissed then
         await_ (detachComponent (delegate (modal w1))
                   (usersElement (modal w1)) w1)
           (fun _ w2 => Done w2 dismissed)
       else Done w1 dismissed).

(** [onDismiss] (lines 125-131), the listener of 'ionDismiss'. *)
Definition onDismiss (ev : UIEvent) (w : World) : UIEvent * Step bool :=
  let ev1 := stopPropagation ev in
  let ev2 := preventDefault ev1 in
  (ev2, dismiss VUndefined None w).

(** [onBackdropTap] (lines 133-136), the listener of 'ionBackdropTap'. *)
Definition onBackdropTap (w : World) : Step bool :=
  dismiss VUndefined (Some BACKDROP) w.

(** ** Reading a trace *)

(** The events emitted on the host, in order, by name. *)
Definition emitted (t : list Effect) : list string :=
  omap (fun e => match e with EEmit ev => Some (type ev) | _ => None end) t.

(** The content handles attach was called for and returned. *)
Definition attached (t : list Effect) : list ElemId :=
  omap (fun e => match e with EAttach _ _ _ _ _ h => Some h | _ => None end) t.

(** The handles detach was called on. *)
Definition detached (t : list Effect) : list (option ElemId) :=
  omap (fun e => match e with EDetach _ h => Some h | _ => None end) t.

(** The animations run. *)
Definition animations (t : list Effect) : list AnimationBuilder :=
  omap (fun e => match e with EAnimate _ b => Some b | _ => None end) t.

(** What the event bridge hands to the content [h] for a host event. *)
Definition bridged (h : option ElemId) (k : LifecycleEvent) (d : Detail)
  : list Effect :=
  match h with
  | Some target =>
      [EDispatch target {| type := view_name k; bubbles := false;
                           cancelable := false; detail := d |}]
  | None => []
  end.

(** A lifecycle event as its emitter puts it on the host. *)
Definition host_event (k : LifecycleEvent) (d : Detail) : CustomEvent :=
  {| type := host_name k; bubbles := true; cancelable := true; detail := d |}.

(** The animation step of a transition, if it is run at all. *)
Definition transition (on : bool) (name : string) (b : AnimationBuilder)
  : list Effect :=
  if on then [EAnimate name b] else [].

(** ** Rendering (lines 206-226) *)

Section Rendering.

(** Theme class derivation (utils/theme) is an opaque service. *)
Variable createThemedClasses : Mode -> string -> gmap string bool.
Variable getClassMap : option CssClass -> gmap string bool.

Record HostStyle := { zIndex : Z }.

Record HostData := {
  no_router : bool;
  class : gmap string bool;
  style : HostStyle
}.

(** [hostData] (lines 206-217); in a spread the later source wins. *)
Definition hostData (this : Modal) : HostData :=
  {| no_router := true;
     class := getClassMap (cssClass this) ∪ createThemedClasses (mode this) "modal";
     style := {| zIndex := number_add 20000 (overlayIndex this) |} |}.

Inductive VNode :=
| IonBackdrop (visible tappable : bool)
| Div (role : string) (classes : gmap string bool).

(** [render] (lines 219-226). *)
Definition render (this : Modal) : list VNode :=
  let dialogClasses := createThemedClasses (mode this) "modal-wrapper" in
  [ IonBackdrop (showBackdrop this) (backdropDismiss this);
    Div "dialog" dialogClasses ].

(** Modelled from the spec: the ion-backdrop component is not part of the
    sources at hand.  Section 4.5: a tap on a tappable backdrop raises
    'ionBackdropTap', which reaches the overlay's listener; a tap on a
    backdrop that is not tappable raises nothing. *)
Definition backdrop_tap (node : VNode) (w : World) : option (Step bool) :=
  match node with
  | IonBackdrop _ true => Some (onBackdropTap w)
  | _ => None
  end.

(** A tap on the backdrop the component has rendered. *)
Definition tap_rendered_backdrop (w : World) : option (Step bool) :=
  match render (modal w) with
  | node :: _ => backdrop_tap node w
  | [] => None
  end.

(** The world after such a tap, and what the listener returned, if it ran. *)
Definition tap_outcome (w : World) : World * option (Exn + bool) :=
  match tap_rendered_backdrop w with
  | Some p => (fst (exec p), Some (snd (exec p)))
  | None => (w, None)
  end.

End Rendering.

End Overlay.

(** ** Sample instances *)

Definition sample_modal : @Modal string unit :=
  {| usersElement := None; presented := false; el := 7; overlayIndex := 1;
     delegate := None; mode := ios; keyboardClose := true;
     enterAnimation := None; leaveAnimation := None; component := "page-one";
     componentProps := Some {[ "title" := VStr "hello" ]}; cssClass := None;
     backdropDismiss := true; showBackdrop := true; animated := false |}.

(** A freshly rendered, idle instance. *)
Definition sample_world : @World string unit :=
  {| modal := sample_modal; container := Some 8; mounted := [];
     next_handle := 9; trace := [] |}.

(** The same instance before its container has been rendered. *)
Definition bare_world : @World string unit :=
  {| modal := sample_modal; container := None; mounted := [];
     next_handle := 9; trace := [] |}.

(** The same instance once presented, its content being element 9. *)
Definition shown_world : @World string unit :=
  {| modal := set_presented true (set_usersElement (Some 9) sample_modal);
     container := Some 8; mounted := [9]; next_handle := 10; trace := [] |}.

(** A second instance, opened after the first. *)
Definition stacked_modal : @Modal string unit :=
  {| usersElement := None; presented := false; el := 11; overlayIndex := 2;
     delegate := None; mode := md; keyboardClose := true;
     enterAnimation := None; leaveAnimation := None; component := "page-two";
     componentProps := None; cssClass := None;
     backdropDismiss := false; showBackdrop := true; animated := true |}.

(** Two instances whose indices are the last safe whole number and the
    one after it. *)
Definition last_safe_modal : @Modal string unit :=
  {| usersElement := None; presented := false; el := 12;
     overlayIndex := 9007199254740991;
     delegate := None; mode := md; keyboardClose := true;
     enterAnimation := None; leaveAnimation := None; component := "page-two";
     componentProps := None; cssClass := None;
     backdropDismiss := true; showBackdrop := true; animated := true |}.

Definition first_unsafe_modal : @Modal string unit :=
  {| usersElement := None; presented := false; el := 13;
     overlayIndex := 9007199254740992;
     delegate := None; mode := md; keyboardClose := true;
     enterAnimation := None; leaveAnimation := None; component := "page-two";
     componentProps := None; cssClass := None;
     backdropDismiss := true; showBackdrop := true; animated := true |}.

Definition every_component (c : string) : bool := true.

Definition no_classes (m : Mode) (base : string) : gmap string bool := ∅.
Definition no_class_map (c : option CssClass) : gmap string bool := ∅.

Arguments Done {ComponentRef Delegate A} w a.
Arguments Threw {ComponentRef Delegate A} w e.
Arguments Await {ComponentRef Delegate A} w k.

(** ** The rest of the component *)

(** The names of the two [@Event()] emitters declared without an
    [eventName] (lines 90 and 95): the name of the member. *)
Definition ionModalDidLoad : string := "ionModalDidLoad".
Definition ionModalDidUnload : string := "ionModalDidUnload".

Section Component.

Context {ComponentRef Delegate : Type}.

(** [componentDidLoad] (lines 117-119). *)
Definition componentDidLoad (w : @World ComponentRef Delegate) : World :=
  emit ionModalDidLoad None w.

(** [componentDidUnload] (lines 121-123). *)
Definition componentDidUnload (w : @World ComponentRef Delegate) : World :=
  emit ionModalDidUnload None w.

(** The props bags attach was called with, in order. *)
Definition attach_props (t : list (@Effect ComponentRef Delegate))
  : list (gmap string Value) :=
  omap (fun e => match e with EAttach _ _ _ _ p _ => Some p | _ => None end) t.

(** The events handed to content elements, in order, with their target. *)
Definition dispatched (t : list (@Effect ComponentRef Delegate))
  : list (ElemId * CustomEvent) :=
  omap (fun e => match e with EDispatch h ev => Some (h, ev) | _ => None end) t.

(** An instance with its two private members ([usersElement], [presented])
    put back to their initial values: what is left is its [@Prop]s and its
    host element. *)
Definition props_of (m : @Modal ComponentRef Delegate) : Modal :=
  set_presented false (set_usersElement None m).

(** *** The methods over arbitrary collaborators

    [present] and [dismiss] once more, as the source has them, with the
    imported functions they call left open: any mounter, any readiness
    wait and any overlay helpers. *)

Variable attach :
  option Delegate -> ElemId -> ComponentRef -> list string ->
  gmap string Value -> @World ComponentRef Delegate ->
  @Step ComponentRef Delegate ElemId.
Variable detach :
  option Delegate -> option ElemId -> @World ComponentRef Delegate ->
  @Step ComponentRef Delegate unit.
Variable ready :
  option ElemId -> @World ComponentRef Delegate ->
  @Step ComponentRef Delegate unit.
Variable presentOverlay :
  string -> AnimationBuilder -> AnimationBuilder ->
  @World ComponentRef Delegate -> @Step ComponentRef Delegate unit.
Variable dismissOverlay :
  Value -> option string -> string -> AnimationBuilder -> AnimationBuilder ->
  @World ComponentRef Delegate -> @Step ComponentRef Delegate bool.

(** [present] (lines 158-174). *)
Definition present_with (w : @World ComponentRef Delegate)
  : @Step ComponentRef Delegate unit :=
  let this := modal w in
  if presented this then Done w tt
  else
    match container w with
    | None => Threw w (JsError "container is undefined")
    | Some cont =>
        let componentProps :=
          <["modal" := VElem (el this)]> (default ∅ (componentProps this)) in
        await_ (attach (delegate this) cont (component this)
                  ["ion-page"] componentProps w)
          (fun h w1 =>
             let w2 := with_modal (set_usersElement (Some h)) w1 in
             await_ (ready (usersElement (modal w2)) w2)
               (fun _ w3 =>
                  presentOverlay "modalEnter" iosEnterAnimation
                    mdEnterAnimation w3))
    end.

(** [dismiss] (lines 179-186). *)
Definition dismiss_with (d : Value) (r : option string)
    (w : @World ComponentRef Delegate) : @Step ComponentRef Delegate bool :=
  await_ (dismissOverlay d r "modalLeave" iosLeaveAnimation
            mdLeaveAnimation w)
    (fun dismissed w1 =>
       if dismissed then
         await_ (detach (delegate (modal w1)) (usersElement (modal w1)) w1)
           (fun _ w2 => Done w2 dismissed)
       else Done w1 dismissed).

End Component.

(** *** Sequences of calls on one instance *)

Section Calls.

Context {ComponentRef Delegate : Type}.
Variable renderable : ComponentRef -> bool.
Variable createThemedClasses : Mode -> string -> gmap string bool.

(** What a user of the instance, its content or its backdrop can do to it:
    call [present], call [dismiss], raise 'ionDismiss' on it, or tap the
    backdrop it rendered. *)
Inductive Call :=
| CallPresent
| CallDismiss (d : Value) (r : option string)
| RaiseIonDismiss (ev : UIEvent)
| TapBackdrop.

(** One call, awaited to its end. *)
Definition call (c : Call) (w : @World ComponentRef Delegate) : World :=
  match c with
  | CallPresent => fst (exec (present renderable w))
  | CallDismiss d r => fst (exec (dismiss d r w))
  | RaiseIonDismiss ev => fst (exec (snd (onDismiss ev w)))
  | TapBackdrop => fst (tap_outcome createThemedClasses w)
  end.

(** Calls made one after the other, each awaited before the next. *)
Definition calls (cs : list Call) (w : @World ComponentRef Delegate) : World :=
  foldl (fun w c => call c w) w cs.

End Calls.

(** [n] full presentations: the four lifecycle events, [n] times over. *)
Fixpoint cycles (n : nat) : list string :=
  match n with
  | O => []
  | S n =>
      ionModalWillPresent :: ionModalDidPresent
      :: ionModalWillDismiss :: ionModalDidDismiss :: cycles n
  end.

(** A descriptor the mounter cannot resolve. *)
Definition no_component (c : string) : bool := false.

(** * Properties of the component *)

(** Reduce a world to its fields, so that a call can be run on it. *)
Ltac open_world w :=
  let m := fresh "m" in
  destruct w as [m ? ? ? ?]; destruct m; simpl in *; subst.

Ltac flatten_trace := rewrite <- ?app_assoc; simpl.

Section Facts.

Context {ComponentRef Delegate : Type}.
Variable renderable : ComponentRef -> bool.
Variable createThemedClasses : Mode -> string -> gmap string bool.
Variable getClassMap : option CssClass -> gmap string bool.

#[local] Abbreviation World := (@World ComponentRef Delegate).
#[local] Abbreviation Modal := (@Modal ComponentRef Delegate).
#[local] Abbreviation Effect := (@Effect ComponentRef Delegate).

(** ** Resumptions *)

Lemma exec_await {A B : Type} (p : Step A) (k : A -> World -> Step B) :
  exec (await_ p k) =
  match exec p with
  | (w, inr a) => exec (k a w)
  | (w, inl e) => (w, inl e)
  end.
Proof.
  induction p as [w a | w e | w k' IH]; simpl; auto.
Qed.

(** ** Reading traces *)

Lemma emitted_app (t u : list Effect) : emitted (t ++ u) = emitted t ++ emitted u.
Proof. apply omap_app. Qed.

Lemma attached_app (t u : list Effect) : attached (t ++ u) = attached t ++ attached u.
Proof. apply omap_app. Qed.

Lemma detached_app (t u : list Effect) : detached (t ++ u) = detached t ++ detached u.
Proof. apply omap_app. Qed.

Lemma animations_app (t u : list Effect) :
  animations (t ++ u) = animations t ++ animations u.
Proof. apply omap_app. Qed.

(** ** The event bridge *)

Lemma lifecycle_bridged (k : LifecycleEvent) (b c : bool) (d : Detail) (w : World) :
  trace (lifecycle {| type := host_name k; bubbles := b; cancelable := c;
                      detail := d |} w)
  = trace w ++ bridged (usersElement (modal w)) k d.
Proof.
  unfold lifecycle, bridged.
  destruct (usersElement (modal w)) as [h|]; destruct k; simpl;
    auto using app_nil_r.
Qed.

Lemma lifecycle_modal (ev : CustomEvent) (w : World) :
  modal (lifecycle ev w) = modal w
  /\ container (lifecycle ev w) = container w
  /\ mounted (lifecycle ev w) = mounted w
  /\ next_handle (lifecycle ev w) = next_handle w.
Proof.
  unfold lifecycle.
  destruct (usersElement (modal w)); [|auto].
  destruct (truthy_name _); auto.
Qed.

Lemma emit_trace (k : LifecycleEvent) (d : Detail) (w : World) :
  trace (emit (host_name k) d w)
  = trace w ++ EEmit (host_event k d) :: bridged (usersElement (modal w)) k d.
Proof.
  unfold emit.
  replace (listens_lifecycle (host_name k)) with true by (destruct k; reflexivity).
  cbv zeta. rewrite lifecycle_bridged. simpl. now rewrite <- app_assoc.
Qed.

Lemma emit_modal (k : LifecycleEvent) (d : Detail) (w : World) :
  modal (emit (host_name k) d w) = modal w
  /\ container (emit (host_name k) d w) = container w
  /\ mounted (emit (host_name k) d w) = mounted w
  /\ next_handle (emit (host_name k) d w) = next_handle w.
Proof.
  unfold emit. cbv zeta.
  destruct (listens_lifecycle _); [|simpl; auto].
  pose proof (lifecycle_modal
    {| type := host_name k; bubbles := true; cancelable := true; detail := d |}
    (log (EEmit {| type := host_name k; bubbles := true; cancelable := true;
                   detail := d |}) w)) as H.
  simpl in H. exact H.
Qed.

(** ** Dismissal *)

Lemma dismiss_idle (d : Value) (r : option string) (w : World) :
  presented (modal w) = false ->
  dismiss d r w = Await w (fun w' => Done w' false)
  /\ exec (dismiss d r w) = (w, inr false).
Proof.
  intros H. unfold dismiss, overlays_dismiss. rewrite H. simpl. auto.
Qed.

Lemma dismiss_presented (d : Value) (r : option string) (w : World) :
  presented (modal w) = true ->
  let payload := Some {| data := d; role := r |} in
  let h := usersElement (modal w) in
  let w' := fst (exec (dismiss d r w)) in
  snd (exec (dismiss d r w)) = inr true
  /\ trace w' =
       trace w
       ++ EEmit (host_event WillDismiss payload) :: bridged h WillDismiss payload
       ++ transition (animated (modal w)) "modalLeave"
            (match leaveAnimation (modal w) with
             | Some b => b
             | None => select (mode (modal w)) iosLeaveAnimation mdLeaveAnimation
             end)
       ++ EEmit (host_event DidDismiss payload) :: bridged h DidDismiss payload
       ++ [EDetach (delegate (modal w)) h]
  /\ modal w' = set_presented false (modal w)
  /\ mounted w' = remove_handle h (mounted w)
  /\ container w' = container w
  /\ next_handle w' = next_handle w.
Proof.
  intros H. open_world w.
  unfold dismiss, overlays_dismiss, overlayAnimation, transition, bridged.
  destruct animated0, usersElement0; cbn; flatten_trace; auto 10.
Qed.

(** ** Presentation *)

Lemma present_presented (w : World) :
  presented (modal w) = true -> present renderable w = Done w tt.
Proof.
  intros H. unfold present. now rewrite H.
Qed.

Lemma present_no_container (w : World) :
  presented (modal w) = false -> container w = None ->
  present renderable w = Threw w (JsError "container is undefined").
Proof.
  intros Hp Hc. unfold present. now rewrite Hp, Hc.
Qed.

Lemma present_idle (w : World) (c : ElemId) :
  presented (modal w) = false ->
  container w = Some c ->
  renderable (component (modal w)) = true ->
  let h := next_handle w in
  let props :=
    <["modal" := VElem (el (modal w))]> (default ∅ (componentProps (modal w))) in
  let w' := fst (exec (present renderable w)) in
  snd (exec (present renderable w)) = inr tt
  /\ trace w' =
       trace w
       ++ EAttach (delegate (modal w)) c (component (modal w)) ["ion-page"] props h
       :: EReady (Some h)
       :: EEmit (host_event WillPresent None) :: bridged (Some h) WillPresent None
       ++ transition (animated (modal w)) "modalEnter"
            (match enterAnimation (modal w) with
             | Some b => b
             | None => select (mode (modal w)) iosEnterAnimation mdEnterAnimation
             end)
       ++ EEmit (host_event DidPresent None) :: bridged (Some h) DidPresent None
  /\ modal w' = set_presented true (set_usersElement (Some h) (modal w))
  /\ mounted w' = mounted w ++ [h]
  /\ container w' = container w
  /\ next_handle w' = S h.
Proof.
  intros Hp Hc Hr. open_world w.
  unfold present, attachComponent, deepReady, overlays_present,
    overlayAnimation, transition, bridged.
  cbn [modal presented container component]. rewrite Hr.
  destruct animated0; cbn; flatten_trace; auto 10.
Qed.

Lemma round_binary64_safe (z : Z) :
  (- MAX_SAFE_INTEGER <= z <= MAX_SAFE_INTEGER)%Z -> round_binary64 z = z.
Proof.
  unfold MAX_SAFE_INTEGER, round_binary64. intros Hz.
  assert (He : (Z.log2 (Z.abs z) - 52 <= 0)%Z).
  { destruct (Z.eq_dec (Z.abs z) 0%Z) as [-> | Hnz]; [simpl; lia|].
    assert (Z.log2 (Z.abs z) < 53)%Z; [|lia].
    apply Z.log2_lt_pow2; [lia|]. change (2 ^ 53)%Z with 9007199254740992%Z.
    lia. }
  apply Z.leb_le in He. cbv zeta. now rewrite He.
Qed.

Lemma remove_handle_gone (h : ElemId) (l : list ElemId) :
  h ∉ remove_handle (Some h) l.
Proof.
  unfold remove_handle. intros Hin.
  apply list_elem_of_In, filter_In in Hin. destruct Hin as [_ Hne].
  rewrite Nat.eqb_refl in Hne. discriminate.
Qed.

(** ** The claims *)

(** C1 (as amended).  Two calls of present() in a row, the second made once
    the first has completed and with no dismiss() in between, produce exactly
    one WillPresent/DidPresent pair and mount the content once: any
    present() call made while [presented] is true returns at once as a no-op,
    leaving the world as it is, so it mounts nothing and emits nothing. *)
Theorem present_twice_one_pair (w : World) (c : ElemId) :
  presented (modal w) = false ->
  container w = Some c ->
  renderable (component (modal w)) = true ->
  let w1 := fst (exec (present renderable w)) in
  let w2 := fst (exec (present renderable w1)) in
  snd (exec (present renderable w)) = inr tt
  /\ presented (modal w1) = true
  /\ present renderable w1 = Done w1 tt
  /\ w2 = w1
  /\ emitted (trace w2)
     = emitted (trace w) ++ [ionModalWillPresent; ionModalDidPresent]
  /\ attached (trace w2) = attached (trace w) ++ [next_handle w]
  /\ (forall v : World,
        presented (modal v) = true -> present renderable v = Done v tt).
Proof.
  intros Hp Hc Hr w1 w2.
  destruct (present_idle w c Hp Hc Hr) as (Hres & Htr & Hm & _).
  fold w1 in Htr, Hm.
  assert (Hp1 : presented (modal w1) = true) by now rewrite Hm.
  assert (Hw2 : w2 = w1) by (unfold w2; now rewrite (present_presented w1 Hp1)).
  repeat split; auto using present_presented.
  - rewrite Hw2, Htr, emitted_app. f_equal.
    unfold transition. now destruct (animated (modal w)).
  - rewrite Hw2, Htr, attached_app. f_equal.
    unfold transition. now destruct (animated (modal w)).
Qed.

(** C2.  When present() is called on an idle instance whose container
    ('.modal-wrapper') cannot be found, the call fails with the error
    'container is undefined' (MountError); the world is left exactly as it
    was: nothing is attached, no event is emitted and [presented] stays
    false. *)
Theorem present_without_container (w : World) :
  presented (modal w) = false ->
  container w = None ->
  let out := exec (present renderable w) in
  present renderable w = Threw w MountError
  /\ out = (w, inl MountError)
  /\ mounted (fst out) = mounted w
  /\ attached (trace (fst out)) = attached (trace w)
  /\ emitted (trace (fst out)) = emitted (trace w)
  /\ presented (modal (fst out)) = false.
Proof.
  intros Hp Hc out. unfold out.
  rewrite (present_no_container w Hp Hc). simpl. auto 10.
Qed.

(** C3.  dismiss(data, role) returns true exactly when the instance was
    presented.  On an instance that is not presented it returns false and
    leaves the world untouched (no event, no detach); on a presented one it
    emits WillDismiss then DidDismiss, clears [presented] and unmounts the
    content.  Detach is called, on the mounted handle, if and only if the
    result is true; a further dismiss after any dismiss returns false and
    changes nothing. *)
Theorem dismiss_guard_and_detach (d : Value) (r : option string) (w : World) :
  let out := exec (dismiss d r w) in
  snd out = inr (presented (modal w))
  /\ detached (trace (fst out))
     = detached (trace w)
       ++ (if presented (modal w) then [usersElement (modal w)] else [])
  /\ (if presented (modal w)
      then emitted (trace (fst out))
           = emitted (trace w) ++ [ionModalWillDismiss; ionModalDidDismiss]
           /\ presented (modal (fst out)) = false
           /\ mounted (fst out)
              = remove_handle (usersElement (modal w)) (mounted w)
      else fst out = w)
  /\ (forall (d' : Value) (r' : option string),
        exec (dismiss d' r' (fst out)) = (fst out, inr false)).
Proof.
  intros out. unfold out. clear out.
  destruct (presented (modal w)) eqn:Hp.
  - destruct (dismiss_presented d r w Hp) as (Hres & Htr & Hm & Hmt & _).
    cbv zeta in Htr, Hm, Hmt.
    repeat split; auto.
    + rewrite Htr, detached_app. f_equal.
      unfold transition, bridged.
      now destruct (animated (modal w)), (usersElement (modal w)).
    + rewrite Htr, emitted_app. f_equal.
      unfold transition, bridged.
      now destruct (animated (modal w)), (usersElement (modal w)).
    + now rewrite Hm.
    + intros d' r'. apply dismiss_idle. now rewrite Hm.
  - destruct (dismiss_idle d r w Hp) as [_ He]. rewrite He. simpl.
    repeat split; auto using app_nil_r.
    intros d' r'. now apply dismiss_idle.
Qed.

(** C4 (as amended).  After a successful present-then-dismiss round trip
    the content handle is unmounted and [presented] is false again, which is
    the condition the guard of present() tests: the instance is not in a
    terminal state.  A further present() on it is accepted like the first
    one; it mounts fresh content, emits a new WillPresent/DidPresent pair
    and sets [presented]. *)
Theorem present_again_after_dismiss
    (d : Value) (r : option string) (w : World) (c : ElemId) :
  presented (modal w) = false ->
  container w = Some c ->
  renderable (component (modal w)) = true ->
  let h := next_handle w in
  let w1 := fst (exec (present renderable w)) in
  let w2 := fst (exec (dismiss d r w1)) in
  let w3 := fst (exec (present renderable w2)) in
  snd (exec (present renderable w)) = inr tt
  /\ snd (exec (dismiss d r w1)) = inr true
  /\ (h ∉ mounted w2)
  /\ presented (modal w2) = false
  /\ snd (exec (present renderable w2)) = inr tt
  /\ presented (modal w3) = true
  /\ usersElement (modal w3) = Some (S h)
  /\ mounted w3 = mounted w2 ++ [S h]
  /\ attached (trace w3) = attached (trace w2) ++ [S h]
  /\ emitted (trace w3)
     = emitted (trace w2) ++ [ionModalWillPresent; ionModalDidPresent].
Proof.
  intros Hp Hc Hr h w1 w2 w3.
  destruct (present_idle w c Hp Hc Hr) as (Hres1 & _ & Hm1 & Hmt1 & Hc1 & Hn1).
  fold w1 in Hm1, Hmt1, Hc1, Hn1. fold h in Hm1, Hmt1, Hn1.
  assert (Hp1 : presented (modal w1) = true) by now rewrite Hm1.
  destruct (dismiss_presented d r w1 Hp1) as (Hres2 & _ & Hm2 & Hmt2 & Hc2 & Hn2).
  fold w2 in Hm2, Hmt2, Hc2, Hn2.
  assert (Hp2 : presented (modal w2) = false) by now rewrite Hm2.
  assert (Hc2' : container w2 = Some c) by now rewrite Hc2, Hc1.
  assert (Hr2 : renderable (component (modal w2)) = true)
    by now rewrite Hm2, Hm1.
  destruct (present_idle w2 c Hp2 Hc2' Hr2) as (Hres3 & Htr3 & Hm3 & Hmt3 & _).
  fold w3 in Htr3, Hm3, Hmt3. rewrite Hn2, Hn1 in Htr3, Hm3, Hmt3.
  repeat split; auto.
  - rewrite Hmt2, Hm1. simpl. rewrite Hmt1. apply remove_handle_gone.
  - now rewrite Hm3.
  - now rewrite Hm3.
  - rewrite Htr3, attached_app. f_equal.
    unfold transition. now destruct (animated (modal w2)).
  - rewrite Htr3, emitted_app. f_equal.
    unfold transition. now destruct (animated (modal w2)).
Qed.

(** C5 (as amended).  For each of the four lifecycle events the event
    bridge hands the element held in [usersElement] exactly one event, named
    by the fixed mapping (WillPresent to ionViewWillEnter, DidPresent to
    ionViewDidEnter, WillDismiss to ionViewWillDismiss, DidDismiss to
    ionViewDidDismiss), with bubbles and cancelable false and the detail of
    the original event; it does nothing when [usersElement] is unset, that
    is before any content has been mounted.  Whether that element is still
    mounted is not consulted.  Every lifecycle event the instance emits is
    passed through the bridge. *)
Theorem lifecycle_forwards
    (k : LifecycleEvent) (b c : bool) (d : Detail) (w : World) :
  lifecycle {| type := host_name k; bubbles := b; cancelable := c;
               detail := d |} w
  = match usersElement (modal w) with
    | Some h =>
        log (EDispatch h {| type := view_name k; bubbles := false;
                            cancelable := false; detail := d |}) w
    | None => w
    end
  /\ get_key LIFECYCLE_MAP (host_name k) = Some (view_name k)
  /\ emit (host_name k) d w
     = lifecycle (host_event k d) (log (EEmit (host_event k d)) w).
Proof.
  repeat split.
  - unfold lifecycle.
    destruct (usersElement (modal w)); destruct k; reflexivity.
  - destruct k; reflexivity.
  - unfold emit.
    replace (listens_lifecycle (host_name k)) with true
      by (destruct k; reflexivity).
    reflexivity.
Qed.

(** C6.  The backdrop is rendered visible exactly when [showBackdrop] is set
    and tappable exactly when [backdropDismiss] is set.  A tap on a tappable
    backdrop calls dismiss(undefined, "backdrop"), which goes through the
    guard of dismiss: with [backdropDismiss] false, or on an instance that is
    not presented, a tap leaves the world as it was (no dismissal, no
    event); otherwise it dismisses. *)
Theorem backdrop_render_and_tap (w : World) :
  let this := modal w in
  render createThemedClasses this
  = [ IonBackdrop (showBackdrop this) (backdropDismiss this);
      Div "dialog" (createThemedClasses (mode this) "modal-wrapper") ]
  /\ onBackdropTap w = dismiss VUndefined (Some "backdrop") w
  /\ tap_rendered_backdrop createThemedClasses w
     = (if backdropDismiss this
        then Some (dismiss VUndefined (Some "backdrop") w)
        else None)
  /\ (if backdropDismiss this && presented this
      then snd (tap_outcome createThemedClasses w) = Some (inr true)
      else tap_outcome createThemedClasses w
           = (w, if backdropDismiss this then Some (inr false) else None)).
Proof.
  intros this. unfold this. clear this.
  assert (Htap : tap_rendered_backdrop createThemedClasses w
                 = (if backdropDismiss (modal w)
                    then Some (dismiss VUndefined (Some "backdrop") w)
                    else None)).
  { unfold tap_rendered_backdrop, render, backdrop_tap, onBackdropTap, BACKDROP.
    now destruct (backdropDismiss (modal w)). }
  repeat split; auto.
  unfold tap_outcome. rewrite Htap.
  destruct (backdropDismiss (modal w)); simpl; [|reflexivity].
  destruct (presented (modal w)) eqn:Hp.
  - f_equal. now destruct (dismiss_presented VUndefined (Some "backdrop") w Hp).
  - destruct (dismiss_idle VUndefined (Some "backdrop") w Hp) as [_ He].
    now rewrite He.
Qed.

(** C7.  The animation run by a transition is a function of [mode] and of
    the direction: present() runs the iOS enter builder for mode ios and the
    Material enter builder for mode md, dismiss() the corresponding leave
    builders, and a builder supplied through [enterAnimation] or
    [leaveAnimation] replaces the table entry.  With [animated] false no
    animation is run and the transition does not wait: WillPresent is
    followed at once by DidPresent, and [presented] is true. *)
Theorem animation_selection
    (d : Value) (r : option string) (w v : World) (c : ElemId) :
  presented (modal w) = false ->
  container w = Some c ->
  renderable (component (modal w)) = true ->
  presented (modal v) = true ->
  let w' := fst (exec (present renderable w)) in
  let v' := fst (exec (dismiss d r v)) in
  animations (trace w')
  = animations (trace w)
    ++ (if animated (modal w)
        then [match enterAnimation (modal w), mode (modal w) with
              | Some b, _ => b
              | None, ios => iosEnterAnimation
              | None, md => mdEnterAnimation
              end]
        else [])
  /\ animations (trace v')
     = animations (trace v)
       ++ (if animated (modal v)
           then [match leaveAnimation (modal v), mode (modal v) with
                 | Some b, _ => b
                 | None, ios => iosLeaveAnimation
                 | None, md => mdLeaveAnimation
                 end]
           else [])
  /\ emitted (trace w')
     = emitted (trace w) ++ [ionModalWillPresent; ionModalDidPresent]
  /\ presented (modal w') = true
  /\ (forall u : World,
        suspended (overlays_present "modalEnter" iosEnterAnimation
                     mdEnterAnimation u)
        = animated (modal u)).
Proof.
  intros Hp Hc Hr Hv w' v'.
  destruct (present_idle w c Hp Hc Hr) as (_ & Htr & Hm & _).
  destruct (dismiss_presented d r v Hv) as (_ & Htv & _).
  fold w' in Htr, Hm. fold v' in Htv. cbv zeta in Htv.
  repeat split.
  - rewrite Htr, animations_app. f_equal. unfold transition, select.
    now destruct (animated (modal w)), (enterAnimation (modal w)),
      (mode (modal w)).
  - rewrite Htv, animations_app. f_equal. unfold transition, select, bridged.
    now destruct (animated (modal v)), (leaveAnimation (modal v)),
      (mode (modal v)), (usersElement (modal v)).
  - rewrite Htr, emitted_app. f_equal.
    unfold transition. now destruct (animated (modal w)).
  - now rewrite Hm.
  - intros u. unfold overlays_present, overlayAnimation.
    destruct (emit_modal WillPresent None u) as [Hmu _].
    change ionModalWillPresent with (host_name WillPresent).
    rewrite Hmu. now destruct (animated (modal u)).
Qed.

(** C8 (as amended).  A successful present() mounts the content through one
    call of attach, with the marker classes ['ion-page'] and with the props
    bag made of the caller's [componentProps] extended by the overlay's own
    host element under the key [modal]: that key is bound to the host
    element, whatever the caller put there, and every other key is as the
    caller gave it. *)
Theorem present_mounts_with_merged_props (w : World) (c : ElemId) :
  presented (modal w) = false ->
  container w = Some c ->
  renderable (component (modal w)) = true ->
  let this := modal w in
  let w' := fst (exec (present renderable w)) in
  let merged := <["modal" := VElem (el this)]> (default ∅ (componentProps this)) in
  let cssClasses := ["ion-page"] in
  (exists rest : list Effect,
      trace w'
      = trace w
        ++ EAttach (delegate this) c (component this) cssClasses merged
             (next_handle w) :: rest)
  /\ attached (trace w') = attached (trace w) ++ [next_handle w]
  /\ usersElement (modal w') = Some (next_handle w)
  /\ "ion-page" ∈ cssClasses
  /\ merged !! "modal" = Some (VElem (el this))
  /\ (forall k : string,
        k ≠ "modal" ->
        merged !! k = match componentProps this with
                      | Some props => props !! k
                      | None => None
                      end).
Proof.
  intros Hp Hc Hr this w' merged cssClasses.
  destruct (present_idle w c Hp Hc Hr) as (_ & Htr & Hm & _).
  fold w' in Htr, Hm. fold this in Htr, Hm.
  repeat split.
  - eexists. exact Htr.
  - rewrite Htr, attached_app. f_equal.
    unfold transition. now destruct (animated this).
  - now rewrite Hm.
  - apply list_elem_of_here.
  - apply lookup_insert_eq.
  - intros k Hk. unfold merged. rewrite lookup_insert_ne by congruence.
    destruct (componentProps this); [reflexivity | apply lookup_empty].
Qed.

(** C9 (as amended).  For instances whose [overlayIndex] is a whole number
    with 20000 + [overlayIndex] within the safe range (at most
    [MAX_SAFE_INTEGER] in magnitude), the z-index the host is rendered with
    is exactly 20000 plus [overlayIndex], and of two such instances the one
    with the larger [overlayIndex] has the strictly larger z-index. *)
Theorem zIndex_follows_overlayIndex (m1 m2 : Modal) :
  (- MAX_SAFE_INTEGER <= 20000 + overlayIndex m1)%Z ->
  (overlayIndex m1 < overlayIndex m2)%Z ->
  (20000 + overlayIndex m2 <= MAX_SAFE_INTEGER)%Z ->
  zIndex (style (hostData createThemedClasses getClassMap m1))
  = (20000 + overlayIndex m1)%Z
  /\ zIndex (style (hostData createThemedClasses getClassMap m2))
     = (20000 + overlayIndex m2)%Z
  /\ (zIndex (style (hostData createThemedClasses getClassMap m1))
      < zIndex (style (hostData createThemedClasses getClassMap m2)))%Z.
Proof.
  intros Hlo Hlt Hhi. simpl. unfold number_add.
  rewrite !round_binary64_safe by lia.
  repeat split. lia.
Qed.

(** C10.  The listener of 'ionDismiss' consumes the event it receives: it
    stops its propagation, prevents its default action and calls dismiss()
    with neither data nor role, which goes through the guard of dismiss like
    any other call: false and no change on an instance that is not
    presented, true on a presented one. *)
Theorem onDismiss_consumes_event (ev : UIEvent) (w : World) :
  let ev' := fst (onDismiss ev w) in
  let call := snd (onDismiss ev w) in
  ev' = preventDefault (stopPropagation ev)
  /\ cancelBubble ev' = true
  /\ defaultPrevented ev' = ui_cancelable ev || defaultPrevented ev
  /\ call = dismiss VUndefined None w
  /\ (if presented (modal w)
      then snd (exec call) = inr true
      else exec call = (w, inr false)).
Proof.
  simpl. repeat split.
  destruct (presented (modal w)) eqn:Hp.
  - now destruct (dismiss_presented VUndefined None w Hp).
  - now destruct (dismiss_idle VUndefined None w Hp).
Qed.

End Facts.

(** ** The claims at the sample instances *)

Lemma present_twice_one_pair_witness :
  presented (modal sample_world) = false
  /\ container sample_world = Some 8
  /\ every_component (component (modal sample_world)) = true
  /\ emitted (trace (fst (exec (present every_component
                  (fst (exec (present every_component sample_world)))))))
     = [ionModalWillPresent; ionModalDidPresent].
Proof.
  refine (conj eq_refl (conj eq_refl (conj eq_refl _))).
  exact (proj1 (proj2 (proj2 (proj2 (proj2
    (present_twice_one_pair every_component sample_world 8
       eq_refl eq_refl eq_refl)))))).
Defined.

(** C1 as stated fails for a call made while an earlier present() is still
    in flight: the first call is suspended on the mounter with [presented]
    still false, so the second call passes the guard, is not a no-op, and
    has the content attached a second time. *)
Lemma present_while_presenting_mounts_again :
  let first := present every_component sample_world in
  let w1 := world_of first in
  let second := present every_component w1 in
  suspended first = true
  /\ presented (modal w1) = false
  /\ mounted w1 = [9]
  /\ second <> Done w1 tt
  /\ suspended second = true
  /\ mounted (world_of second) = [9; 10]
  /\ attached (trace (world_of second)) = [9; 10].
Proof.
  cbv zeta. repeat split; try reflexivity.
  intros H. apply (f_equal suspended) in H. discriminate H.
Qed.

Lemma present_without_container_witness :
  presented (modal bare_world) = false
  /\ container bare_world = None
  /\ exec (present every_component bare_world)
     = (bare_world, inl (JsError "container is undefined")).
Proof.
  refine (conj eq_refl (conj eq_refl _)).
  exact (proj1 (proj2
    (present_without_container every_component bare_world eq_refl eq_refl))).
Defined.

Lemma present_again_after_dismiss_witness :
  presented (modal sample_world) = false
  /\ container sample_world = Some 8
  /\ every_component (component (modal sample_world)) = true
  /\ snd (exec (present every_component
                 (fst (exec (dismiss (VNum 1) (Some "custom")
                    (fst (exec (present every_component sample_world))))))))
     = inr tt.
Proof.
  refine (conj eq_refl (conj eq_refl (conj eq_refl _))).
  exact (proj1 (proj2 (proj2 (proj2 (proj2
    (present_again_after_dismiss every_component (VNum 1) (Some "custom")
       sample_world 8 eq_refl eq_refl eq_refl)))))).
Defined.

(** C4 as stated fails: after a successful round trip the same instance is
    presented again by a further present(), which neither fails nor is
    ignored. *)
Lemma present_accepted_after_dismiss :
  let w1 := fst (exec (present every_component sample_world)) in
  let w2 := fst (exec (dismiss VUndefined None w1)) in
  let third := exec (present every_component w2) in
  snd (exec (present every_component sample_world)) = inr tt
  /\ snd (exec (dismiss VUndefined None w1)) = inr true
  /\ mounted w2 = []
  /\ presented (modal w2) = false
  /\ snd third = inr tt
  /\ presented (modal (fst third)) = true
  /\ mounted (fst third) = [10]
  /\ emitted (trace (fst third))
     = [ ionModalWillPresent; ionModalDidPresent;
         ionModalWillDismiss; ionModalDidDismiss;
         ionModalWillPresent; ionModalDidPresent ].
Proof.
  cbv zeta. repeat split; reflexivity.
Qed.

Lemma animation_selection_witness :
  presented (modal sample_world) = false
  /\ container sample_world = Some 8
  /\ every_component (component (modal sample_world)) = true
  /\ presented (modal shown_world) = true
  /\ animations (trace (fst (exec (present every_component sample_world))))
     = []
  /\ emitted (trace (fst (exec (present every_component sample_world))))
     = [ionModalWillPresent; ionModalDidPresent].
Proof.
  refine (conj eq_refl (conj eq_refl (conj eq_refl (conj eq_refl (conj _ _))))).
  - exact (proj1
      (animation_selection every_component VUndefined None
         sample_world shown_world 8 eq_refl eq_refl eq_refl eq_refl)).
  - exact (proj1 (proj2 (proj2
      (animation_selection every_component VUndefined None
         sample_world shown_world 8 eq_refl eq_refl eq_refl eq_refl)))).
Defined.

Lemma present_mounts_with_merged_props_witness :
  presented (modal sample_world) = false
  /\ container sample_world = Some 8
  /\ every_component (component (modal sample_world)) = true
  /\ attached (trace (fst (exec (present every_component sample_world))))
     = [9].
Proof.
  refine (conj eq_refl (conj eq_refl (conj eq_refl _))).
  exact (proj1 (proj2
    (present_mounts_with_merged_props every_component sample_world 8
       eq_refl eq_refl eq_refl))).
Defined.

Lemma zIndex_follows_overlayIndex_witness :
  (- MAX_SAFE_INTEGER <= 20000 + overlayIndex sample_modal)%Z
  /\ (overlayIndex sample_modal < overlayIndex stacked_modal)%Z
  /\ (20000 + overlayIndex stacked_modal <= MAX_SAFE_INTEGER)%Z
  /\ (zIndex (style (hostData no_classes no_class_map sample_modal))
      < zIndex (style (hostData no_classes no_class_map stacked_modal)))%Z.
Proof.
  assert (Hlo : (- MAX_SAFE_INTEGER <= 20000 + overlayIndex sample_modal)%Z)
    by (vm_compute; discriminate).
  assert (Hhi : (20000 + overlayIndex stacked_modal <= MAX_SAFE_INTEGER)%Z)
    by (vm_compute; discriminate).
  refine (conj Hlo (conj eq_refl (conj Hhi _))).
  exact (proj2 (proj2
    (zIndex_follows_overlayIndex no_classes no_class_map
       sample_modal stacked_modal Hlo eq_refl Hhi))).
Defined.

(** C9 as stated fails beyond the safe range: the indices 2^53 - 1 and 2^53
    differ, but 20000 added to either gives the same number, so the two
    instances are rendered with the same z-index. *)
Lemma zIndex_equal_beyond_safe_range :
  (overlayIndex last_safe_modal < overlayIndex first_unsafe_modal)%Z
  /\ zIndex (style (hostData no_classes no_class_map last_safe_modal))
     = 9007199254760992%Z
  /\ zIndex (style (hostData no_classes no_class_map first_unsafe_modal))
     = 9007199254760992%Z
  /\ ~ (zIndex (style (hostData no_classes no_class_map last_safe_modal))
        < zIndex (style (hostData no_classes no_class_map first_unsafe_modal)))%Z.
Proof.
  repeat split; try reflexivity.
  vm_compute. discriminate.
Qed.

(** C5 as stated fails once content has been detached: after a present and a
    dismiss nothing is mounted, yet [usersElement] still holds the detached
    element and the bridge dispatches a lifecycle event to it. *)
Lemma lifecycle_dispatches_after_detach :
  let w1 := fst (exec (present every_component sample_world)) in
  let w2 := fst (exec (dismiss VUndefined None w1)) in
  let w3 := lifecycle (host_event WillPresent None) w2 in
  snd (exec (dismiss VUndefined None w1)) = inr true
  /\ mounted w2 = []
  /\ usersElement (modal w2) = Some 9
  /\ w3 <> w2
  /\ dispatched (trace w3)
     = dispatched (trace w2)
       ++ [(9, {| type := "ionViewWillEnter"; bubbles := false;
                  cancelable := false; detail := None |})].
Proof.
  cbv zeta. repeat split; try reflexivity.
  intros H. apply (f_equal (fun w => length (dispatched (trace w)))) in H.
  discriminate H.
Qed.

(** C8 as stated fails on the name of the key: the host element is bound
    under the key [modal]; the key [hostRef] is not bound by present(), so
    in the bag the mounter receives it is absent unless the caller put it
    there. *)
Lemma present_binds_modal_not_hostRef :
  let w' := fst (exec (present every_component sample_world)) in
  snd (exec (present every_component sample_world)) = inr tt
  /\ (fun p : gmap string Value => p !! "hostRef") <$> attach_props (trace w')
     = [None]
  /\ (fun p : gmap string Value => p !! "modal") <$> attach_props (trace w')
     = [Some (VElem 7)]
  /\ (fun p : gmap string Value => p !! "title") <$> attach_props (trace w')
     = [Some (VStr "hello")].
Proof.
  cbv zeta. repeat split; vm_compute; reflexivity.
Qed.

(** * Further properties of the component *)

Section MoreFacts.

Context {ComponentRef Delegate : Type}.
Variable renderable : ComponentRef -> bool.
Variable createThemedClasses : Mode -> string -> gmap string bool.
Variable getClassMap : option CssClass -> gmap string bool.

#[local] Abbreviation World := (@World ComponentRef Delegate).
#[local] Abbreviation Modal := (@Modal ComponentRef Delegate).
#[local] Abbreviation Effect := (@Effect ComponentRef Delegate).

Lemma dispatched_app (t u : list Effect) :
  dispatched (t ++ u) = dispatched t ++ dispatched u.
Proof. apply omap_app. Qed.

Lemma present_attach_fails (w : World) (c : ElemId) :
  presented (modal w) = false ->
  container w = Some c ->
  renderable (component (modal w)) = false ->
  exec (present renderable w) = (w, inl AttachError).
Proof.
  intros Hp Hc Hr. unfold present. rewrite Hp, Hc, exec_await.
  unfold attachComponent. now rewrite Hr.
Qed.

(** ** Load and unload notifications *)

(** X1.  componentDidLoad and componentDidUnload each put exactly one event
    on the host, 'ionModalDidLoad' and 'ionModalDidUnload', without detail.
    Neither is among the events the bridge listens to, so nothing is handed
    to the content even when content is mounted, and the instance, the
    mounted content and the container are left as they were. *)
Theorem load_events_stay_on_host (w : World) :
  trace (componentDidLoad w)
  = trace w ++ [EEmit {| type := "ionModalDidLoad"; bubbles := true;
                         cancelable := true; detail := None |}]
  /\ trace (componentDidUnload w)
     = trace w ++ [EEmit {| type := "ionModalDidUnload"; bubbles := true;
                            cancelable := true; detail := None |}]
  /\ dispatched (trace (componentDidLoad w)) = dispatched (trace w)
  /\ dispatched (trace (componentDidUnload w)) = dispatched (trace w)
  /\ modal (componentDidLoad w) = modal w
  /\ modal (componentDidUnload w) = modal w
  /\ mounted (componentDidLoad w) = mounted w
  /\ mounted (componentDidUnload w) = mounted w.
Proof.
  unfold componentDidLoad, componentDidUnload, emit. simpl.
  rewrite !dispatched_app. simpl. rewrite app_nil_r. auto 10.
Qed.

(** ** Failure of the mounter *)

(** X2.  When the mounter cannot resolve the descriptor, present() on an
    idle instance with a container rejects with the mounter's error and
    leaves the world as it was: [usersElement] is not assigned, [presented]
    stays false and nothing is emitted, so the call can be repeated. *)
Theorem present_attach_failure (w : World) (c : ElemId) :
  presented (modal w) = false ->
  container w = Some c ->
  renderable (component (modal w)) = false ->
  exec (present renderable w) = (w, inl AttachError)
  /\ exec (present renderable (fst (exec (present renderable w))))
     = (w, inl AttachError).
Proof.
  intros Hp Hc Hr. rewrite (present_attach_fails w c Hp Hc Hr). simpl.
  split; [reflexivity | now apply (present_attach_fails w c)].
Qed.

(** ** The classes of the host *)

(** X3.  The host is always marked 'no-router', and its class map is the
    theme's classes for 'modal' overlaid with the classes of [cssClass]: a
    class named by [cssClass] keeps the value [cssClass] gives it, every
    other class has the value the theme gives it. *)
Theorem hostData_classes (m : Modal) (k : string) :
  no_router (hostData createThemedClasses getClassMap m) = true
  /\ class (hostData createThemedClasses getClassMap m) !! k
     = match getClassMap (cssClass m) !! k with
       | Some b => Some b
       | None => createThemedClasses (mode m) "modal" !! k
       end.
Proof.
  split; [reflexivity|]. simpl. rewrite lookup_union.
  destruct (getClassMap (cssClass m) !! k),
    (createThemedClasses (mode m) "modal" !! k); reflexivity.
Qed.

(** ** The methods over arbitrary collaborators *)

Section Collaborators.

Variable attach :
  option Delegate -> ElemId -> ComponentRef -> list string ->
  gmap string Value -> World -> @Step ComponentRef Delegate ElemId.
Variable detach :
  option Delegate -> option ElemId -> World -> @Step ComponentRef Delegate unit.
Variable ready : option ElemId -> World -> @Step ComponentRef Delegate unit.
Variable presentOverlay :
  string -> AnimationBuilder -> AnimationBuilder -> World ->
  @Step ComponentRef Delegate unit.
Variable dismissOverlay :
  Value -> option string -> string -> AnimationBuilder -> AnimationBuilder ->
  World -> @Step ComponentRef Delegate bool.

(** X4.  Whatever the overlay helper and the mounter do, dismiss() returns
    what the helper returned; it calls detach only when that is true, with
    the delegate and the content element the instance has once the helper
    has finished; a rejection of the helper or of detach rejects dismiss()
    with the same error. *)
Theorem dismiss_with_composition (d : Value) (r : option string) (w : World) :
  exec (dismiss_with detach dismissOverlay d r w)
  = match exec (dismissOverlay d r "modalLeave" iosLeaveAnimation
                  mdLeaveAnimation w) with
    | (w1, inr true) =>
        match exec (detach (delegate (modal w1)) (usersElement (modal w1)) w1)
        with
        | (w2, inr _) => (w2, inr true)
        | (w2, inl e) => (w2, inl e)
        end
    | (w1, inr false) => (w1, inr false)
    | (w1, inl e) => (w1, inl e)
    end
  /\ dismiss d r w = dismiss_with detachComponent overlays_dismiss d r w.
Proof.
  split; [|reflexivity].
  unfold dismiss_with. rewrite exec_await.
  destruct (exec (dismissOverlay d r "modalLeave" iosLeaveAnimation
                    mdLeaveAnimation w)) as [w1 [e | [|]]]; try reflexivity.
  rewrite exec_await.
  now destruct (exec (detach (delegate (modal w1)) (usersElement (modal w1)) w1))
    as [w2 [e | []]].
Qed.

(** X5.  Whatever the collaborators do, present() on an instance that is
    not presented and has a container first calls the mounter; if that
    rejects, present() rejects with the same error and [usersElement] is not
    assigned; otherwise [usersElement] is set to the returned handle before
    the readiness wait is started on it; if the wait rejects, present()
    rejects with the same error and the overlay helper is not run;
    otherwise the result is that of the helper, run last. *)
Theorem present_with_sequencing (w : World) (c : ElemId) :
  presented (modal w) = false ->
  container w = Some c ->
  exec (present_with attach ready presentOverlay w)
  = match exec (attach (delegate (modal w)) c (component (modal w))
                  ["ion-page"]
                  (<["modal" := VElem (el (modal w))]>
                     (default ∅ (componentProps (modal w)))) w) with
    | (w1, inl e) => (w1, inl e)
    | (w1, inr h) =>
        match exec (ready (Some h) (with_modal (set_usersElement (Some h)) w1))
        with
        | (w2, inl e) => (w2, inl e)
        | (w2, inr _) =>
            exec (presentOverlay "modalEnter" iosEnterAnimation
                    mdEnterAnimation w2)
        end
    end
  /\ present renderable w
     = present_with (attachComponent renderable) deepReady overlays_present w.
Proof.
  intros Hp Hc. split; [|reflexivity].
  unfold present_with. rewrite Hp, Hc, exec_await.
  destruct (exec (attach _ _ _ _ _ w)) as [w1 [e | h]]; [reflexivity|].
  rewrite exec_await. simpl.
  now destruct (exec (ready (Some h) _)) as [w2 [e | []]].
Qed.

End Collaborators.

(** ** What one call does *)

Lemma present_cases (w : World) :
  fst (exec (present renderable w)) = w
  \/ (presented (modal w) = false
      /\ exists c, container w = Some c
                   /\ renderable (component (modal w)) = true).
Proof.
  destruct (presented (modal w)) eqn:Hp.
  - left. now rewrite (present_presented renderable w Hp).
  - destruct (container w) as [c|] eqn:Hc.
    + destruct (renderable (component (modal w))) eqn:Hr.
      * right. eauto.
      * left. now rewrite (present_attach_fails w c Hp Hc Hr).
    + left. now rewrite (present_no_container renderable w Hp Hc).
Qed.

Lemma dismiss_cases (d : Value) (r : option string) (w : World) :
  let w' := fst (exec (dismiss d r w)) in
  w' = w
  \/ (presented (modal w) = true
      /\ modal w' = set_presented false (modal w)
      /\ mounted w' = remove_handle (usersElement (modal w)) (mounted w)
      /\ container w' = container w
      /\ emitted (trace w')
         = emitted (trace w) ++ [ionModalWillDismiss; ionModalDidDismiss]).
Proof.
  intros w'. unfold w'. destruct (presented (modal w)) eqn:Hp.
  - right.
    destruct (dismiss_presented d r w Hp) as (_ & Htr & Hm & Hmt & Hc & _).
    cbv zeta in Htr, Hm, Hmt, Hc. repeat split; auto.
    rewrite Htr, emitted_app. f_equal. unfold transition, bridged.
    now destruct (animated (modal w)), (usersElement (modal w)).
  - left. now destruct (dismiss_idle d r w Hp) as [_ ->].
Qed.

Lemma call_cases (c : Call) (w : World) :
  let w' := call renderable createThemedClasses c w in
  w' = w
  \/ (presented (modal w) = false
      /\ modal w'
         = set_presented true
             (set_usersElement (Some (next_handle w)) (modal w))
      /\ mounted w' = mounted w ++ [next_handle w]
      /\ container w' = container w
      /\ emitted (trace w')
         = emitted (trace w) ++ [ionModalWillPresent; ionModalDidPresent])
  \/ (presented (modal w) = true
      /\ modal w' = set_presented false (modal w)
      /\ mounted w' = remove_handle (usersElement (modal w)) (mounted w)
      /\ container w' = container w
      /\ emitted (trace w')
         = emitted (trace w) ++ [ionModalWillDismiss; ionModalDidDismiss]).
Proof.
  destruct c as [| d r | ev |]; simpl.
  - destruct (present_cases w) as [H | (Hp & c & Hc & Hr)]; [now left|].
    right; left.
    destruct (present_idle renderable w c Hp Hc Hr) as (_ & Htr & Hm & Hmt & Hc' & _).
    repeat split; auto.
    rewrite Htr, emitted_app. f_equal.
    unfold transition. now destruct (animated (modal w)).
  - destruct (dismiss_cases d r w) as [H | H]; auto.
  - destruct (dismiss_cases VUndefined None w) as [H | H]; auto.
  - unfold tap_outcome, tap_rendered_backdrop, render, backdrop_tap,
      onBackdropTap.
    destruct (backdropDismiss (modal w)); [|now left]. simpl.
    destruct (dismiss_cases VUndefined (Some BACKDROP) w) as [H | H]; auto.
Qed.

Lemma calls_cons (c : Call) (cs : list Call) (w : World) :
  calls renderable createThemedClasses (c :: cs) w
  = calls renderable createThemedClasses cs
      (call renderable createThemedClasses c w).
Proof. reflexivity. Qed.

Lemma cycles_snoc (n : nat) :
  cycles n ++ [ionModalWillPresent; ionModalDidPresent;
               ionModalWillDismiss; ionModalDidDismiss]
  = cycles (S n).
Proof.
  induction n as [|n IH]; [reflexivity|].
  change (cycles (S n)) with
    ([ionModalWillPresent; ionModalDidPresent;
      ionModalWillDismiss; ionModalDidDismiss] ++ cycles n) at 1.
  rewrite <- app_assoc, IH. reflexivity.
Qed.

Lemma props_of_set (p : bool) (u : option ElemId) (m : Modal) :
  props_of (set_presented p (set_usersElement u m)) = props_of m
  /\ props_of (set_presented p m) = props_of m.
Proof. now destruct m. Qed.

(** ** Sequences of calls *)

(** X6.  No sequence of calls changes a prop of the instance or its
    container: only [usersElement] and [presented] move.  What the
    component renders, and the host data (z-index, classes), are therefore
    the same after the calls as before them. *)
Theorem calls_keep_props (cs : list Call) (w : World) :
  let w' := calls renderable createThemedClasses cs w in
  props_of (modal w') = props_of (modal w)
  /\ container w' = container w
  /\ render createThemedClasses (modal w')
     = render createThemedClasses (modal w)
  /\ hostData createThemedClasses getClassMap (modal w')
     = hostData createThemedClasses getClassMap (modal w).
Proof.
  intros w'.
  assert (H : props_of (modal w') = props_of (modal w)
              /\ container w' = container w).
  { unfold w'. clear w'. revert w.
    induction cs as [|c cs IH]; intros w; [now split|].
    rewrite calls_cons.
    destruct (IH (call renderable createThemedClasses c w)) as [Hm Hc].
    rewrite Hm, Hc.
    destruct (call_cases c w)
      as [-> | [(_ & -> & _ & -> & _) | (_ & -> & _ & -> & _)]];
      auto; split; auto; apply props_of_set. }
  destruct H as [Hm Hc]. repeat split; auto.
  - change (render createThemedClasses (props_of (modal w'))
            = render createThemedClasses (props_of (modal w))).
    now rewrite Hm.
  - change (hostData createThemedClasses getClassMap (props_of (modal w'))
            = hostData createThemedClasses getClassMap (props_of (modal w))).
    now rewrite Hm.
Qed.

(** X7.  On an instance that starts out not presented, whatever calls are
    made one after the other, the lifecycle events emitted are a number of
    full rounds WillPresent, DidPresent, WillDismiss, DidDismiss, followed
    by one more WillPresent, DidPresent exactly when the instance ends up
    presented: no dismiss event comes before its present events, and the
    events of a pair are never interleaved with another pair. *)
Theorem calls_event_order (cs : list Call) (w : World) :
  presented (modal w) = false ->
  let w' := calls renderable createThemedClasses cs w in
  exists n : nat,
    emitted (trace w')
    = emitted (trace w) ++ cycles n
      ++ (if presented (modal w')
          then [ionModalWillPresent; ionModalDidPresent] else []).
Proof.
  intros Hp w'.
  assert (Inv : forall (cs : list Call) (v : World),
    (exists n, emitted (trace v)
               = emitted (trace w) ++ cycles n
                 ++ (if presented (modal v)
                     then [ionModalWillPresent; ionModalDidPresent] else [])) ->
    exists n, emitted (trace (calls renderable createThemedClasses cs v))
              = emitted (trace w) ++ cycles n
                ++ (if presented (modal (calls renderable createThemedClasses cs v))
                    then [ionModalWillPresent; ionModalDidPresent] else [])).
  { clear. intros cs. induction cs as [|c cs IH]; intros v Hv; [exact Hv|].
    rewrite calls_cons. apply IH. destruct Hv as [n Hn].
    destruct (call_cases c v)
      as [-> | [(Hpv & Hm & _ & _ & He) | (Hpv & Hm & _ & _ & He)]].
    - eauto.
    - exists n. rewrite He, Hn, Hpv, Hm.
      cbn [presented set_presented set_usersElement].
      rewrite ?app_nil_r, <- ?app_assoc. reflexivity.
    - exists (S n). rewrite He, Hn, Hpv, Hm.
      cbn [presented set_presented set_usersElement].
      rewrite <- cycles_snoc, ?app_nil_r, <- ?app_assoc. reflexivity. }
  apply Inv. exists 0. rewrite Hp. simpl. now rewrite app_nil_r.
Qed.

(** X8.  On an instance that starts out not presented and with no content
    mounted, whatever calls are made one after the other, content is
    mounted exactly while the instance is presented: when it is presented
    the one mounted element is [usersElement], and when it is not, nothing
    is mounted. *)
Theorem calls_mounted_while_presented (cs : list Call) (w : World) :
  presented (modal w) = false ->
  mounted w = [] ->
  let w' := calls renderable createThemedClasses cs w in
  mounted w'
  = (if presented (modal w') then option_list (usersElement (modal w')) else [])
  /\ length (mounted w') = (if presented (modal w') then 1 else 0).
Proof.
  intros Hp Hm w'.
  assert (Inv : forall (cs : list Call) (v : World),
    (if presented (modal v)
     then exists h, usersElement (modal v) = Some h /\ mounted v = [h]
     else mounted v = []) ->
    let v' := calls renderable createThemedClasses cs v in
    if presented (modal v')
    then exists h, usersElement (modal v') = Some h /\ mounted v' = [h]
    else mounted v' = []).
  { clear. intros cs. induction cs as [|c cs IH]; intros v Hv; [exact Hv|].
    cbv zeta. rewrite calls_cons. apply IH.
    destruct (call_cases c v)
      as [-> | [(Hpv & Hmv & Hmt & _) | (Hpv & Hmv & Hmt & _)]].
    - exact Hv.
    - rewrite Hpv in Hv. rewrite Hmv, Hmt, Hv. simpl. eauto.
    - rewrite Hpv in Hv. destruct Hv as (h & Hu & Hl).
      rewrite Hmv, Hmt, Hu, Hl. simpl. now rewrite Nat.eqb_refl. }
  specialize (Inv cs w). rewrite Hp in Inv. specialize (Inv Hm).
  cbv zeta in Inv. fold w' in Inv.
  destruct (presented (modal w')).
  - destruct Inv as (h & -> & ->). now split.
  - now rewrite Inv.
Qed.

(** ** Events handed to the content *)

(** X9.  On a successful present() the two enter events go to the content
    element that this very call mounted, first ionViewWillEnter and then
    ionViewDidEnter, both without detail, and to no other element, whatever
    [usersElement] designated before the call. *)
Theorem present_enters_new_content (w : World) (c : ElemId) :
  presented (modal w) = false ->
  container w = Some c ->
  renderable (component (modal w)) = true ->
  let h := next_handle w in
  let w' := fst (exec (present renderable w)) in
  attached (trace w') = attached (trace w) ++ [h]
  /\ dispatched (trace w')
     = dispatched (trace w)
       ++ [ (h, {| type := "ionViewWillEnter"; bubbles := false;
                   cancelable := false; detail := None |});
            (h, {| type := "ionViewDidEnter"; bubbles := false;
                   cancelable := false; detail := None |}) ].
Proof.
  intros Hp Hc Hr h w'.
  destruct (present_idle renderable w c Hp Hc Hr) as (_ & Htr & _).
  fold w' in Htr. fold h in Htr. rewrite Htr, attached_app, dispatched_app.
  unfold transition. now destruct (animated (modal w)).
Qed.

(** X10.  On a successful dismiss(data, role) of an instance with content,
    the content receives ionViewWillDismiss and then ionViewDidDismiss, each
    carrying the payload {data, role} given to dismiss(), and only after
    that is it detached: the call to detach is the last effect of the
    dismissal. *)
Theorem dismiss_leaves_content_last
    (d : Value) (r : option string) (w : World) (h : ElemId) :
  presented (modal w) = true ->
  usersElement (modal w) = Some h ->
  let w' := fst (exec (dismiss d r w)) in
  let payload := Some {| data := d; role := r |} in
  dispatched (trace w')
  = dispatched (trace w)
    ++ [ (h, {| type := "ionViewWillDismiss"; bubbles := false;
                cancelable := false; detail := payload |});
         (h, {| type := "ionViewDidDismiss"; bubbles := false;
                cancelable := false; detail := payload |}) ]
  /\ last (trace w') = Some (EDetach (delegate (modal w)) (Some h))
  /\ detached (trace w') = detached (trace w) ++ [Some h].
Proof.
  intros Hp Hu w' payload.
  destruct (dismiss_presented d r w Hp) as (_ & Htr & _).
  cbv zeta in Htr. fold w' in Htr. rewrite Hu in Htr.
  rewrite Htr, dispatched_app, detached_app. unfold transition.
  destruct (animated (modal w)); simpl; repeat split;
    rewrite last_app_cons; reflexivity.
Qed.

(** X11.  dismiss() never clears [usersElement]: after a successful
    dismissal it still designates the content that was detached, although
    that content is no longer mounted, and a lifecycle event reaching the
    bridge afterwards is still dispatched to that element. *)
Theorem dismiss_keeps_usersElement
    (d : Value) (r : option string) (k : LifecycleEvent) (e : Detail)
    (w : World) (h : ElemId) :
  presented (modal w) = true ->
  usersElement (modal w) = Some h ->
  let w' := fst (exec (dismiss d r w)) in
  usersElement (modal w') = Some h
  /\ (h ∉ mounted w')
  /\ trace (lifecycle (host_event k e) w')
     = trace w' ++ [EDispatch h {| type := view_name k; bubbles := false;
                                   cancelable := false; detail := e |}].
Proof.
  intros Hp Hu w'.
  destruct (dismiss_presented d r w Hp) as (_ & _ & Hm & Hmt & _).
  cbv zeta in Hm, Hmt. fold w' in Hm, Hmt.
  assert (Hu' : usersElement (modal w') = Some h) by now rewrite Hm.
  repeat split; auto.
  - rewrite Hmt, Hu. apply remove_handle_gone.
  - unfold host_event. rewrite lifecycle_bridged, Hu'. reflexivity.
Qed.

(** ** Calls that overlap *)

Lemma present_suspends (w : World) (c : ElemId) :
  presented (modal w) = false ->
  container w = Some c ->
  renderable (component (modal w)) = true ->
  suspended (present renderable w) = true
  /\ world_of (present renderable w)
     = log (EAttach (delegate (modal w)) c (component (modal w)) ["ion-page"]
              (<["modal" := VElem (el (modal w))]>
                 (default ∅ (componentProps (modal w))))
              (next_handle w))
         (mount (next_handle w) w).
Proof.
  intros Hp Hc Hr. unfold present, attachComponent.
  rewrite Hp, Hc, Hr. split; reflexivity.
Qed.

Lemma present_resumes (w v : World) (c : ElemId) :
  presented (modal w) = false ->
  container w = Some c ->
  renderable (component (modal w)) = true ->
  let h := next_handle w in
  let v' := fst (exec (resume (present renderable w) v)) in
  modal v' = set_presented true (set_usersElement (Some h) (modal v))
  /\ mounted v' = mounted v
  /\ container v' = container v
  /\ next_handle v' = next_handle v
  /\ detached (trace v') = detached (trace v).
Proof.
  intros Hp Hc Hr. unfold present, attachComponent.
  rewrite Hp, Hc, Hr. cbn [await_ resume].
  unfold deepReady, overlays_present, overlayAnimation.
  open_world v.
  destruct animated0; cbn -[detached]; rewrite !detached_app;
    cbn [detached omap list_omap app]; rewrite ?app_nil_r; auto.
Qed.

(** X12.  present() is not safe against a second call made while the first
    is still waiting for the mounter.  Both calls pass the guard and both
    mount content; when the first and then the second have run to their
    end, two elements are mounted and [usersElement] designates the second
    only.  A dismissal then succeeds and detaches the second element, and
    the first stays mounted although the instance is no longer presented. *)
Theorem overlapping_presents_leave_content
    (d : Value) (r : option string) (w : World) (c : ElemId) :
  presented (modal w) = false ->
  container w = Some c ->
  renderable (component (modal w)) = true ->
  let h := next_handle w in
  let first := present renderable w in
  let second := present renderable (world_of first) in
  let w1 := fst (exec (resume first (world_of second))) in
  let w2 := fst (exec (resume second w1)) in
  let w3 := fst (exec (dismiss d r w2)) in
  suspended first = true
  /\ suspended second = true
  /\ mounted w2 = mounted w ++ [h; S h]
  /\ usersElement (modal w2) = Some (S h)
  /\ presented (modal w2) = true
  /\ snd (exec (dismiss d r w2)) = inr true
  /\ presented (modal w3) = false
  /\ detached (trace w3) = detached (trace w) ++ [Some (S h)]
  /\ h ∈ mounted w3.
Proof.
  intros Hp Hc Hr h first second w1 w2 w3.
  destruct (present_suspends w c Hp Hc Hr) as [Hs1 Hw1].
  fold first in Hs1, Hw1. fold h in Hw1.
  assert (Hp' : presented (modal (world_of first)) = false)
    by (rewrite Hw1; exact Hp).
  assert (Hc' : container (world_of first) = Some c)
    by (rewrite Hw1; exact Hc).
  assert (Hr' : renderable (component (modal (world_of first))) = true)
    by (rewrite Hw1; exact Hr).
  assert (Hn' : next_handle (world_of first) = S h) by now rewrite Hw1.
  assert (Hm' : mounted (world_of first) = mounted w ++ [h]) by now rewrite Hw1.
  assert (Hd' : detached (trace (world_of first)) = detached (trace w)).
  { rewrite Hw1. cbn [trace log mount]. rewrite detached_app.
    cbn [detached omap list_omap]. apply app_nil_r. }
  destruct (present_suspends (world_of first) c Hp' Hc' Hr') as [Hs2 Hw2].
  fold second in Hs2, Hw2. rewrite Hn' in Hw2.
  assert (Hm2 : mounted (world_of second) = mounted w ++ [h; S h]).
  { rewrite Hw2. cbn [mounted log mount]. rewrite Hm', <- app_assoc.
    reflexivity. }
  assert (Hd2 : detached (trace (world_of second)) = detached (trace w)).
  { rewrite Hw2. cbn [trace log mount]. rewrite detached_app, Hd'.
    cbn [detached omap list_omap]. apply app_nil_r. }
  destruct (present_resumes w (world_of second) c Hp Hc Hr)
    as (_ & Hmt1 & _ & _ & Hd1).
  fold first in Hmt1, Hd1. fold w1 in Hmt1, Hd1.
  destruct (present_resumes (world_of first) w1 c Hp' Hc' Hr')
    as (Hmo2 & Hmt2 & _ & _ & Hdd2).
  fold second in Hmo2, Hmt2, Hdd2. fold w2 in Hmo2, Hmt2, Hdd2.
  rewrite Hn' in Hmo2.
  assert (Hp2 : presented (modal w2) = true) by now rewrite Hmo2.
  assert (Hu2 : usersElement (modal w2) = Some (S h)) by now rewrite Hmo2.
  destruct (dismiss_presented d r w2 Hp2) as (Hres & Htr & Hm3 & Hmt3 & _).
  cbv zeta in Htr, Hm3, Hmt3. fold w3 in Htr, Hm3, Hmt3.
  repeat split; auto.
  - now rewrite Hmt2, Hmt1.
  - now rewrite Hm3.
  - rewrite Htr, Hu2, !detached_app, Hdd2, Hd1, Hd2. f_equal.
    unfold transition. now destruct (animated (modal w2)).
  - rewrite Hmt3, Hu2, Hmt2, Hmt1, Hm2.
    apply list_elem_of_In, filter_In. split.
    + apply in_or_app. right. left. reflexivity.
    + apply negb_true_iff, Nat.eqb_neq. lia.
Qed.

End MoreFacts.

(** ** The further properties at the sample instances *)

Lemma present_attach_failure_witness :
  presented (modal sample_world) = false
  /\ container sample_world = Some 8
  /\ no_component (component (modal sample_world)) = false
  /\ exec (present no_component sample_world) = (sample_world, inl AttachError).
Proof.
  refine (conj eq_refl (conj eq_refl (conj eq_refl _))).
  exact (proj1
    (present_attach_failure no_component sample_world 8
       eq_refl eq_refl eq_refl)).
Defined.

Lemma calls_event_order_witness :
  presented (modal sample_world) = false
  /\ exists n : nat,
      emitted (trace (calls every_component no_classes
                        [CallPresent; CallPresent; TapBackdrop;
                         CallDismiss VNull None; CallPresent]
                        sample_world))
      = emitted (trace sample_world) ++ cycles n
        ++ (if presented (modal (calls every_component no_classes
                                   [CallPresent; CallPresent; TapBackdrop;
                                    CallDismiss VNull None; CallPresent]
                                   sample_world))
            then [ionModalWillPresent; ionModalDidPresent] else []).
Proof.
  refine (conj eq_refl _).
  exact (calls_event_order every_component no_classes
           [CallPresent; CallPresent; TapBackdrop;
            CallDismiss VNull None; CallPresent]
           sample_world eq_refl).
Defined.

Lemma calls_mounted_while_presented_witness :
  presented (modal sample_world) = false
  /\ mounted sample_world = []
  /\ length (mounted (calls every_component no_classes
                        [CallPresent; TapBackdrop; CallPresent] sample_world))
     = (if presented (modal (calls every_component no_classes
                               [CallPresent; TapBackdrop; CallPresent]
                               sample_world))
        then 1 else 0).
Proof.
  refine (conj eq_refl (conj eq_refl _)).
  exact (proj2
    (calls_mounted_while_presented every_component no_classes
       [CallPresent; TapBackdrop; CallPresent] sample_world eq_refl eq_refl)).
Defined.

Lemma present_enters_new_content_witness :
  presented (modal sample_world) = false
  /\ container sample_world = Some 8
  /\ every_component (component (modal sample_world)) = true
  /\ attached (trace (fst (exec (present every_component sample_world))))
     = attached (trace sample_world) ++ [9].
Proof.
  refine (conj eq_refl (conj eq_refl (conj eq_refl _))).
  exact (proj1
    (present_enters_new_content every_component sample_world 8
       eq_refl eq_refl eq_refl)).
Defined.

Lemma dismiss_leaves_content_last_witness :
  presented (modal shown_world) = true
  /\ usersElement (modal shown_world) = Some 9
  /\ last (trace (fst (exec (dismiss (VNum 1) (Some "custom") shown_world))))
     = Some (EDetach None (Some 9)).
Proof.
  refine (conj eq_refl (conj eq_refl _)).
  exact (proj1 (proj2
    (dismiss_leaves_content_last (VNum 1) (Some "custom") shown_world 9
       eq_refl eq_refl))).
Defined.

Lemma dismiss_keeps_usersElement_witness :
  presented (modal shown_world) = true
  /\ usersElement (modal shown_world) = Some 9
  /\ usersElement (modal (fst (exec (dismiss VUndefined None shown_world))))
     = Some 9.
Proof.
  refine (conj eq_refl (conj eq_refl _)).
  exact (proj1
    (dismiss_keeps_usersElement VUndefined None DidPresent None shown_world 9
       eq_refl eq_refl)).
Defined.

Lemma present_with_sequencing_witness :
  presented (modal sample_world) = false
  /\ container sample_world = Some 8
  /\ exec (present_with (attachComponent no_component) deepReady
             overlays_present sample_world)
     = (sample_world, inl AttachError).
Proof.
  refine (conj eq_refl (conj eq_refl _)).
  exact (proj1
    (present_with_sequencing every_component
       (attachComponent no_component) deepReady overlays_present
       sample_world 8 eq_refl eq_refl)).
Defined.

Lemma overlapping_presents_leave_content_witness :
  presented (modal sample_world) = false
  /\ container sample_world = Some 8
  /\ every_component (component (modal sample_world)) = true
  /\ (let first := present every_component sample_world in
      let second := present every_component (world_of first) in
      let w1 := fst (exec (resume first (world_of second))) in
      mounted (fst (exec (resume second w1))) = mounted sample_world ++ [9; 10]).
Proof.
  refine (conj eq_refl (conj eq_refl (conj eq_refl _))).
  exact (proj1 (proj2 (proj2
    (overlapping_presents_leave_content every_component VUndefined None
       sample_world 8 eq_refl eq_refl eq_refl)))).
Defined.
